(** * The Black-Scholes engine of [js/blackscholes.js]

    A shallow embedding of the numerical core of the option calculator:
    the standard normal helpers [pdf] and [cdf], the class [BlackScholes]
    with its cached [d1]/[d2] and its pricing methods, and the surface
    sampler [generateSurfaceData].

    Two readings of a JavaScript Number are used.

    - Exact semantics (everything outside module [Ieee]): a Number is a
      real; [Math.exp], [Math.log], [Math.sqrt], [Math.abs], [Math.max],
      [Math.pow(_, 2)] and [Math.PI] are the functions and the constant of
      real analysis.  The properties that speak about every real [x],
      about closed formulas or about tolerances are stated here.
    - Binary64 semantics (module [Ieee]): a Number is an IEEE-754 double
      ([spec_float] at precision 53 and [emax] 1024) and the four
      operations round to nearest even.  The functions that ECMAScript
      leaves implementation-approximated are the fields of a record.  Only
      finiteness of the cached values is studied there. *)

From Stdlib Require Import Reals Lra Lia List ZArith Bool.
From Stdlib Require Import SpecFloat.
Import ListNotations.

Local Open Scope R_scope.

(* ################################################################## *)
(** * Part I: the embedding *)

(* ================================================================== *)
(** ** 1. Math helper functions *)

(** [function pdf(x)]: [Math.exp(-0.5 * x * x) / Math.sqrt(2 * Math.PI)]. *)
Definition pdf (x : R) : R :=
  exp (-0.5 * x * x) / sqrt (2 * PI).

(** The coefficients declared inside [cdf]. *)
Definition a1 : R := 0.254829592.
Definition a2 : R := -0.284496736.
Definition a3 : R := 1.421413741.
Definition a4 : R := -1.453152027.
Definition a5 : R := 1.061405429.
Definition p : R := 0.3275911.

(** The polynomial factor of line 21,
    [(((((a5 * t + a4) * t) + a3) * t + a2) * t + a1) * t]. *)
Definition horner (t : R) : R :=
  (((((a5 * t + a4) * t) + a3) * t + a2) * t + a1) * t.

(** [function cdf(x)].  [sign] is computed from the argument before it is
    overwritten by its absolute value. *)
Definition cdf (x : R) : R :=
  let sign := if Rge_dec x 0 then 1 else -1 in
  let x := Rabs x in
  let t := 1.0 / (1.0 + p * x) in
  let y := 1.0 - horner t * exp (- x * x) in
  0.5 * (1.0 + sign * y).

(* ================================================================== *)
(** ** 2. The class [BlackScholes] *)

(** The instance fields.  [d1] and [d2] are assigned by [calculateD1D2]. *)
Record BlackScholes : Type := mkBlackScholes {
  S : R;
  K : R;
  r : R;
  T : R;
  sigma : R;
  d1 : R;
  d2 : R
}.

(** [Math.pow(x, 2)]. *)
Definition pow2 (x : R) : R := x ^ 2.

(** [calculateD1D2()]: two assignments to [this], the second one reading
    the field written by the first. *)
Definition calculateD1D2 (this : BlackScholes) : BlackScholes :=
  let this1 :=
    mkBlackScholes (S this) (K this) (r this) (T this) (sigma this)
      ((ln (S this / K this) + (r this + 0.5 * pow2 (sigma this)) * T this)
         / (sigma this * sqrt (T this)))
      (d2 this) in
  mkBlackScholes (S this1) (K this1) (r this1) (T this1) (sigma this1)
    (d1 this1)
    (d1 this1 - sigma this1 * sqrt (T this1)).

(** [constructor(S, K, r, T, sigma)].  Before [calculateD1D2] runs the two
    derived fields are [undefined]; they are never read in that state, so
    any placeholder does. *)
Definition new_BlackScholes (S K r T sigma : R) : BlackScholes :=
  calculateD1D2 (mkBlackScholes S K r T sigma 0 0).

Definition callPrice (this : BlackScholes) : R :=
  S this * cdf (d1 this) - K this * exp (- r this * T this) * cdf (d2 this).

Definition putPrice (this : BlackScholes) : R :=
  K this * exp (- r this * T this) * cdf (- d2 this) - S this * cdf (- d1 this).

Definition deltaCall (this : BlackScholes) : R := cdf (d1 this).
Definition deltaPut (this : BlackScholes) : R := cdf (d1 this) - 1.

Definition gamma (this : BlackScholes) : R :=
  pdf (d1 this) / (S this * sigma this * sqrt (T this)).

Definition vega (this : BlackScholes) : R :=
  S this * pdf (d1 this) * sqrt (T this) / 100.

Definition thetaCall (this : BlackScholes) : R :=
  let t1 := - (S this * pdf (d1 this) * sigma this) / (2 * sqrt (T this)) in
  let t2 := - r this * K this * exp (- r this * T this) * cdf (d2 this) in
  (t1 + t2) / 365.

Definition rhoCall (this : BlackScholes) : R :=
  (K this * T this * exp (- r this * T this) * cdf (d2 this)) / 100.

(* ================================================================== *)
(** ** 3. The surface sampler *)

(** [for (let i = lo; ...; i++) body] run for [n] iterations over an
    explicit loop state. *)
Fixpoint for_loop {St : Type} (n : nat) (i : nat)
    (body : nat -> St -> St) (s : St) : St :=
  match n with
  | O => s
  | Datatypes.S n' => for_loop n' (Datatypes.S i) body (body i s)
  end.

(** The object returned by [generateSurfaceData]. *)
Record SurfaceData : Type := mkSurfaceData {
  x : list R;
  y : list R;
  z : list (list R)
}.

(** Body of the inner loop, a closure over the locals of
    [generateSurfaceData] and over the row index [i].  The state is
    [(x_data, row_z)]; [push] appends at the end. *)
Definition inner_body (i : nat) (minS stepSizeS K r t_val sigma : R)
    (j : nat) (st : list R * list R) : list R * list R :=
  let '(x_data, row_z) := st in
  let s_val := minS + INR j * stepSizeS in
  let x_data := if Nat.eqb i 0 then x_data ++ [s_val] else x_data in
  let bs_temp := new_BlackScholes s_val K r t_val sigma in
  (x_data, row_z ++ [gamma bs_temp]).

(** Body of the outer loop.  The state is [(x_data, y_data, z_data)]. *)
Definition outer_body (stepsS : nat) (minS stepSizeS stepSizeT K r sigma : R)
    (i : nat) (st : list R * list R * list (list R))
    : list R * list R * list (list R) :=
  let '(x_data, y_data, z_data) := st in
  let t_val := 0.01 + INR i * stepSizeT in
  let y_data := y_data ++ [t_val] in
  let '(x_data, row_z) :=
    for_loop (stepsS + 1) 0
      (inner_body i minS stepSizeS K r t_val sigma) (x_data, []) in
  (x_data, y_data, z_data ++ [row_z]).

Definition generateSurfaceData (currentS K r currentT sigma : R)
    : SurfaceData :=
  let rangePct := 0.50 in
  let minS := currentS * (1 - rangePct) in
  let maxS := currentS * (1 + rangePct) in
  let stepsS := 30%nat in
  let stepSizeS := (maxS - minS) / INR stepsS in
  let maxT := Rmax (currentT * 1.5) 1.0 in
  let stepsT := 30%nat in
  let stepSizeT := maxT / INR stepsT in
  let '(x_data, y_data, z_data) :=
    for_loop (stepsT + 1) 0
      (outer_body stepsS minS stepSizeS stepSizeT K r sigma) ([], [], []) in
  mkSurfaceData x_data y_data z_data.

(* ================================================================== *)
(** ** 4. The constructor over IEEE-754 doubles *)

Module Ieee.

Definition prec : Z := 53.
Definition emax : Z := 1024.

(** A JavaScript Number. *)
Definition number : Type := spec_float.

Definition add : number -> number -> number := SFadd prec emax.
Definition sub : number -> number -> number := SFsub prec emax.
Definition mul : number -> number -> number := SFmul prec emax.
Definition div : number -> number -> number := SFdiv prec emax.

(** The positive double [m * 2^e]. *)
Definition dbl (m : positive) (e : Z) : number := S754_finite false m e.

(** [Number.isFinite]. *)
Definition is_finite (v : number) : bool :=
  match v with
  | S754_zero _ | S754_finite _ _ _ => true
  | S754_infinity _ | S754_nan => false
  end.

(** A well-formed double that is finite and strictly positive. *)
Definition is_positive_finite (v : number) : bool :=
  match v with
  | S754_finite false _ _ => valid_binary prec emax v
  | _ => false
  end.

(** The functions of [Math] that ECMAScript leaves
    implementation-approximated, on the arguments where it does. *)
Record MathLib : Type := mkMathLib {
  approx_log : number -> number;
  approx_sqrt : number -> number;
  approx_pow : number -> number -> number
}.

(** [Math.log]: ECMAScript fixes the result at NaN, at negative numbers,
    at the zeros and at [+Infinity]. *)
Definition Math_log (lib : MathLib) (v : number) : number :=
  match v with
  | S754_nan => S754_nan
  | S754_zero _ => S754_infinity true
  | S754_infinity false => S754_infinity false
  | S754_infinity true => S754_nan
  | S754_finite true _ _ => S754_nan
  | S754_finite false _ _ => approx_log lib v
  end.

Definition Math_sqrt (lib : MathLib) (v : number) : number :=
  approx_sqrt lib v.

Definition Math_pow (lib : MathLib) (v w : number) : number :=
  approx_pow lib v w.

Record BlackScholes : Type := mkBlackScholes {
  S : number;
  K : number;
  r : number;
  T : number;
  sigma : number;
  d1 : number;
  d2 : number
}.

(** The literals [0.5] and [2] of [calculateD1D2]. *)
Definition half : number := dbl 4503599627370496 (-53).
Definition two : number := dbl 4503599627370496 (-51).

Definition calculateD1D2 (lib : MathLib) (this : BlackScholes)
    : BlackScholes :=
  let this1 :=
    mkBlackScholes (S this) (K this) (r this) (T this) (sigma this)
      (div
         (add (Math_log lib (div (S this) (K this)))
              (mul (add (r this) (mul half (Math_pow lib (sigma this) two)))
                   (T this)))
         (mul (sigma this) (Math_sqrt lib (T this))))
      (d2 this) in
  mkBlackScholes (S this1) (K this1) (r this1) (T this1) (sigma this1)
    (d1 this1)
    (sub (d1 this1) (mul (sigma this1) (Math_sqrt lib (T this1)))).

(** Both derived fields are [undefined] until [calculateD1D2] has run. *)
Definition new_BlackScholes (lib : MathLib) (S K r T sigma : number)
    : BlackScholes :=
  calculateD1D2 lib (mkBlackScholes S K r T sigma S754_nan S754_nan).

(** The precondition of the specification: [S], [K], [T], [sigma]
    positive finite and [r] finite. *)
Definition valid_input (S K r T sigma : number) : bool :=
  is_positive_finite S && is_positive_finite K && is_positive_finite T
  && is_positive_finite sigma && is_finite r && valid_binary prec emax r.

(** The doubles written [1e300], [1e-300], [0.05], [1] and [0.2]. *)
Definition n_1e300 : number := dbl 6724873095247260 944.
Definition n_1em300 : number := dbl 6032057205060441 (-1049).
Definition n_0_05 : number := dbl 7205759403792794 (-57).
Definition n_1 : number := dbl 4503599627370496 (-52).
Definition n_0_2 : number := dbl 7205759403792794 (-55).

End Ieee.

(* ================================================================== *)
(** ** 5. Auxiliary definitions of the proofs *)

(** The local [t] and [y] of [cdf], as functions of the (already
    non-negative) argument. *)
Definition t_of (u : R) : R := 1.0 / (1.0 + p * u).
Definition y_of (u : R) : R := 1.0 - horner (t_of u) * exp (- u * u).

(** The derivative of [horner]. *)
Definition horner' (t : R) : R :=
  a1 + 2 * a2 * t + 3 * a3 * t ^ 2 + 4 * a4 * t ^ 3 + 5 * a5 * t ^ 4.

(** The density is continuous, hence integrable on every segment. *)
Lemma pdf_continuity : continuity pdf.
Proof.
  intros u. unfold pdf, Rdiv.
  apply (continuity_pt_mult (fun v => exp (-0.5 * v * v))
           (fun _ => / sqrt (2 * PI))).
  - apply (continuity_pt_comp (fun v => -0.5 * v * v) exp).
    + apply (continuity_pt_mult (fun v => -0.5 * v) (fun v => v)).
      * apply (continuity_pt_mult (fun _ => -0.5) (fun v => v)).
        -- apply continuity_pt_const. intros a0 b0. reflexivity.
        -- apply derivable_continuous_pt, derivable_pt_id.
      * apply derivable_continuous_pt, derivable_pt_id.
    + apply derivable_continuous_pt, derivable_pt_exp.
  - apply continuity_pt_const. intros a0 b0. reflexivity.
Qed.

Definition pdf_integrable (a b : R) : Riemann_integrable pdf a b.
Proof.
  destruct (Rle_dec a b) as [Hab | Hba].
  - apply continuity_implies_RiemannInt; [exact Hab |].
    intros u _. apply pdf_continuity.
  - apply RiemannInt_P1.
    apply continuity_implies_RiemannInt; [lra |].
    intros u _. apply pdf_continuity.
Qed.

(** The standard normal cumulative distribution function.  The density
    [pdf] is even and has total mass one, so the mass left of [u] is one
    half plus the signed integral of the density from [0] to [u]. *)
Definition Phi (u : R) : R := 0.5 + RiemannInt (pdf_integrable 0 u).

(** The formulas as the specification words them, over the five
    parameters and the two cached values. *)
Module Spec.

Definition d1 (S K r T sigma : R) : R :=
  (ln (S / K) + (r + 0.5 * (sigma * sigma)) * T) / (sigma * sqrt T).

Definition d2 (S K r T sigma : R) : R :=
  d1 S K r T sigma - sigma * sqrt T.

Definition discount (r T : R) : R := exp (- (r * T)).

Definition callPrice (S K r T sigma d1 d2 : R) : R :=
  S * cdf d1 - K * discount r T * cdf d2.

Definition putPrice (S K r T sigma d1 d2 : R) : R :=
  K * discount r T * cdf (- d2) - S * cdf (- d1).

Definition deltaCall (d1 : R) : R := cdf d1.

Definition deltaPut (d1 : R) : R := cdf d1 - 1.

Definition gamma (S K r T sigma d1 d2 : R) : R :=
  pdf d1 / (S * sigma * sqrt T).

Definition vega (S K r T sigma d1 d2 : R) : R :=
  S * pdf d1 * sqrt T / 100.

Definition thetaCall (S K r T sigma d1 d2 : R) : R :=
  (- S * pdf d1 * sigma / (2 * sqrt T) - r * K * discount r T * cdf d2) / 365.

Definition rhoCall (S K r T sigma d1 d2 : R) : R :=
  K * T * discount r T * cdf d2 / 100.

End Spec.

(** The arguments on which [Math.log] is implementation-approximated:
    the strictly positive finite doubles. *)
Definition in_log_domain (v : Ieee.number) : bool :=
  match v with
  | S754_finite false _ _ => true
  | _ => false
  end.

(** The reference scenario of the specification. *)
Definition scenario : BlackScholes := new_BlackScholes 100 100 0.05 1 0.2.

(** An engine whose [d1] is exactly zero: [S = K], [sigma = 2^-10] and
    [r = - sigma^2 / 2 = - 2^-21]; all five inputs are doubles. *)
Definition flat : BlackScholes :=
  new_BlackScholes 100 100 (-0.000000476837158203125) 1 0.0009765625.

(** Spot of column [j], time of row [i] and the cell they determine, for
    the arguments of [generateSurfaceData]. *)
Definition spot_at (currentS : R) (j : nat) : R :=
  currentS * (1 - 0.50)
  + INR j * ((currentS * (1 + 0.50) - currentS * (1 - 0.50)) / INR 30).

Definition time_at (currentT : R) (i : nat) : R :=
  0.01 + INR i * (Rmax (currentT * 1.5) 1.0 / INR 30).

Definition cell_at (currentS K r currentT sigma : R) (i j : nat) : R :=
  gamma (new_BlackScholes (spot_at currentS j) K r (time_at currentT i) sigma).

(* ################################################################## *)
(** * Part II: properties *)

(* ================================================================== *)
(** ** 6. Properties of [cdf] in exact arithmetic *)

Lemma cdf_unfold (u : R) :
  cdf u = 0.5 * (1.0 + (if Rge_dec u 0 then 1 else -1) * y_of (Rabs u)).
Proof. reflexivity. Qed.

Lemma cdf_nonneg_arg (u : R) : 0 <= u -> cdf u = 0.5 * (1 + y_of u).
Proof.
  intros Hu. rewrite cdf_unfold.
  destruct (Rge_dec u 0) as [_ | Hn]; [| lra].
  rewrite Rabs_pos_eq by exact Hu. lra.
Qed.

Lemma cdf_neg_arg (u : R) : u < 0 -> cdf u = 0.5 * (1 - y_of (- u)).
Proof.
  intros Hu. rewrite cdf_unfold.
  destruct (Rge_dec u 0) as [Hp | _]; [lra |].
  rewrite Rabs_left by exact Hu. lra.
Qed.

(** *** The polynomial is increasing *)

Lemma horner_deriv (t : R) : derivable_pt_lim horner t (horner' t).
Proof.
  pose proof (derivable_pt_lim_id t) as I.
  pose proof (derivable_pt_lim_mult _ _ _ _ _
                (derivable_pt_lim_const a5 t) I) as M5.
  pose proof (derivable_pt_lim_plus _ _ _ _ _ M5
                (derivable_pt_lim_const a4 t)) as P4.
  pose proof (derivable_pt_lim_mult _ _ _ _ _ P4 I) as M4.
  pose proof (derivable_pt_lim_plus _ _ _ _ _ M4
                (derivable_pt_lim_const a3 t)) as P3.
  pose proof (derivable_pt_lim_mult _ _ _ _ _ P3 I) as M3.
  pose proof (derivable_pt_lim_plus _ _ _ _ _ M3
                (derivable_pt_lim_const a2 t)) as P2.
  pose proof (derivable_pt_lim_mult _ _ _ _ _ P2 I) as M2.
  pose proof (derivable_pt_lim_plus _ _ _ _ _ M2
                (derivable_pt_lim_const a1 t)) as P1.
  pose proof (derivable_pt_lim_mult _ _ _ _ _ P1 I) as M1.
  match type of M1 with
  | derivable_pt_lim _ _ ?l => replace (horner' t) with l
  end.
  - exact M1.
  - unfold horner', plus_fct, mult_fct, fct_cte, id. ring.
Qed.

Lemma horner_derivable : derivable horner.
Proof. intros t. exists (horner' t). apply horner_deriv. Qed.

Lemma horner'_pos (t : R) : 0 < horner' t.
Proof. unfold horner', a1, a2, a3, a4, a5. nra. Qed.

Lemma horner_increasing (s t : R) : s <= t -> horner s <= horner t.
Proof.
  intros H.
  apply (nonneg_derivative_1 horner horner_derivable); [| exact H].
  intros u. rewrite (derive_pt_eq_0 _ _ _ _ (horner_deriv u)).
  left. apply horner'_pos.
Qed.

Lemma horner_0 : horner 0 = 0.
Proof. unfold horner. ring. Qed.

Lemma horner_1 : horner 1 = 0.999999999.
Proof. unfold horner, a1, a2, a3, a4, a5. lra. Qed.

(** *** The auxiliary variable [t] *)

Lemma t_of_range (u : R) : 0 <= u -> 0 < t_of u <= 1.
Proof.
  intros Hu. unfold t_of, p.
  assert (Hd : 1 <= 1.0 + 0.3275911 * u) by lra.
  split.
  - apply Rdiv_lt_0_compat; lra.
  - apply (Rmult_le_reg_r (1.0 + 0.3275911 * u)); [lra |].
    unfold Rdiv. rewrite Rmult_assoc, Rinv_l by lra. lra.
Qed.

Lemma t_of_decreasing (u v : R) : 0 <= u -> u <= v -> t_of v <= t_of u.
Proof.
  intros Hu Huv. unfold t_of, p, Rdiv.
  apply Rmult_le_compat_l; [lra |].
  apply Rinv_le_contravar; lra.
Qed.

Lemma exp_sq_decreasing (u v : R) :
  0 <= u -> u <= v -> exp (- v * v) <= exp (- u * u).
Proof.
  intros Hu Huv.
  destruct (Req_dec (- v * v) (- u * u)) as [E | N].
  - rewrite E. lra.
  - left. apply exp_increasing. nra.
Qed.

Lemma exp_sq_le_1 (u : R) : exp (- u * u) <= 1.
Proof.
  rewrite <- exp_0.
  destruct (Req_dec (- u * u) 0) as [E | N].
  - rewrite E. lra.
  - left. apply exp_increasing. nra.
Qed.

(** *** The local [y] *)

Lemma horner_t_range (u : R) : 0 <= u -> 0 <= horner (t_of u) <= 0.999999999.
Proof.
  intros Hu. destruct (t_of_range u Hu) as [H0 H1].
  split.
  - rewrite <- horner_0. apply horner_increasing. lra.
  - rewrite <- horner_1. apply horner_increasing. exact H1.
Qed.

Lemma y_of_range (u : R) : 0 <= u -> 0 < y_of u <= 1.
Proof.
  intros Hu. unfold y_of.
  destruct (horner_t_range u Hu) as [H0 H1].
  pose proof (exp_pos (- u * u)) as He.
  pose proof (exp_sq_le_1 u) as He1.
  split; nra.
Qed.

Lemma y_of_increasing (u v : R) : 0 <= u -> u <= v -> y_of u <= y_of v.
Proof.
  intros Hu Huv. unfold y_of.
  assert (Hv : 0 <= v) by lra.
  destruct (horner_t_range v Hv) as [Hv0 _].
  pose proof (horner_increasing _ _ (t_of_decreasing u v Hu Huv)) as Hh.
  pose proof (exp_sq_decreasing u v Hu Huv) as He.
  pose proof (exp_pos (- v * v)) as Hp.
  assert (horner (t_of v) * exp (- v * v)
          <= horner (t_of u) * exp (- u * u)).
  { apply Rmult_le_compat; lra. }
  lra.
Qed.

Lemma y_of_0 : y_of 0 = 0.000000001.
Proof.
  unfold y_of, t_of.
  replace (1.0 / (1.0 + p * 0)) with 1 by (unfold p; lra).
  replace (- 0 * 0) with 0 by ring.
  rewrite exp_0, horner_1. lra.
Qed.

(* ================================================================== *)
(** ** 7. Reflection, range and monotonicity of [cdf] *)

(** Away from the origin the two reflected values add up to one exactly. *)
Lemma cdf_reflection_exact (u : R) : u <> 0 -> cdf u + cdf (- u) = 1.
Proof.
  intros Hu. destruct (Rlt_le_dec u 0) as [Hn | Hp].
  - rewrite (cdf_neg_arg u Hn), (cdf_nonneg_arg (- u)) by lra. lra.
  - assert (Hpos : 0 < u) by lra.
    rewrite (cdf_nonneg_arg u Hp), (cdf_neg_arg (- u)) by lra.
    rewrite Ropp_involutive. lra.
Qed.

(** At the origin both calls take the [sign = 1] branch. *)
Lemma cdf_0 : cdf 0 = 0.5000000005.
Proof. rewrite cdf_nonneg_arg by lra. rewrite y_of_0. lra. Qed.

(** C7: for every real [x], [cdf(x) + cdf(-x)] is within [1e-6] of [1]. *)
Theorem cdf_reflection_tolerance (u : R) :
  Rabs (cdf u + cdf (- u) - 1) <= 0.000001.
Proof.
  destruct (Req_dec u 0) as [E | N].
  - subst u. rewrite Ropp_0, cdf_0.
    rewrite Rabs_pos_eq; lra.
  - rewrite (cdf_reflection_exact u N).
    replace (1 - 1) with 0 by ring. rewrite Rabs_R0. lra.
Qed.

(** C8: [cdf] is monotonically non-decreasing. *)
Theorem cdf_monotone (x1 x2 : R) : x1 <= x2 -> cdf x1 <= cdf x2.
Proof.
  intros H.
  destruct (Rlt_le_dec x1 0) as [N1 | P1];
    destruct (Rlt_le_dec x2 0) as [N2 | P2].
  - rewrite (cdf_neg_arg x1 N1), (cdf_neg_arg x2 N2).
    pose proof (y_of_increasing (- x2) (- x1)). lra.
  - rewrite (cdf_neg_arg x1 N1), (cdf_nonneg_arg x2 P2).
    pose proof (y_of_range (- x1)). pose proof (y_of_range x2). lra.
  - lra.
  - rewrite (cdf_nonneg_arg x1 P1), (cdf_nonneg_arg x2 P2).
    pose proof (y_of_increasing x1 x2 P1 H). lra.
Qed.

Lemma cdf_monotone_witness : -1 <= 2 /\ cdf (-1) <= cdf 2.
Proof.
  split; [lra | apply (cdf_monotone (-1) 2); lra].
Defined.

Lemma cdf_range (u : R) : 0 <= cdf u <= 1.
Proof.
  destruct (Rlt_le_dec u 0) as [N | P].
  - rewrite (cdf_neg_arg u N). pose proof (y_of_range (- u)). lra.
  - rewrite (cdf_nonneg_arg u P). pose proof (y_of_range u P). lra.
Qed.

(** C10: every value of [cdf] lies in [[0, 1]]; hence [deltaCall] lies in
    [[0, 1]] and [deltaPut] in [[-1, 0]] for any engine instance. *)
Theorem cdf_unit_interval :
  (forall u : R, 0 <= cdf u <= 1) /\
  (forall this : BlackScholes,
      0 <= deltaCall this <= 1 /\ -1 <= deltaPut this <= 0).
Proof.
  split.
  - exact cdf_range.
  - intros this. unfold deltaCall, deltaPut.
    pose proof (cdf_range (d1 this)). lra.
Qed.

(* ================================================================== *)
(** ** 8. The closed forms of the specification *)

Lemma discount_eq (r0 T0 : R) : exp (- r0 * T0) = Spec.discount r0 T0.
Proof. unfold Spec.discount. f_equal. ring. Qed.

(** The constructor stores its five arguments unchanged. *)
Lemma new_BlackScholes_fields (S0 K0 r0 T0 sigma0 : R) :
  let this := new_BlackScholes S0 K0 r0 T0 sigma0 in
  S this = S0 /\ K this = K0 /\ r this = r0 /\ T this = T0 /\
  sigma this = sigma0.
Proof. cbv zeta. unfold new_BlackScholes, calculateD1D2. simpl. tauto. Qed.

(** C3: on valid parameters the constructor caches the specified [d1] and
    [d2], and each of the eight pricing operations equals its closed form
    in the cached values. *)
Theorem closed_forms (S0 K0 r0 T0 sigma0 : R) :
  0 < S0 -> 0 < K0 -> 0 < T0 -> 0 < sigma0 ->
  let this := new_BlackScholes S0 K0 r0 T0 sigma0 in
  d1 this = Spec.d1 S0 K0 r0 T0 sigma0 /\
  d2 this = d1 this - sigma0 * sqrt T0 /\
  callPrice this = Spec.callPrice S0 K0 r0 T0 sigma0 (d1 this) (d2 this) /\
  putPrice this = Spec.putPrice S0 K0 r0 T0 sigma0 (d1 this) (d2 this) /\
  deltaCall this = Spec.deltaCall (d1 this) /\
  deltaPut this = Spec.deltaPut (d1 this) /\
  gamma this = Spec.gamma S0 K0 r0 T0 sigma0 (d1 this) (d2 this) /\
  vega this = Spec.vega S0 K0 r0 T0 sigma0 (d1 this) (d2 this) /\
  thetaCall this = Spec.thetaCall S0 K0 r0 T0 sigma0 (d1 this) (d2 this) /\
  rhoCall this = Spec.rhoCall S0 K0 r0 T0 sigma0 (d1 this) (d2 this).
Proof.
  intros HS HK HT Hsig this.
  assert (Hsq : 0 < sqrt T0) by (apply sqrt_lt_R0; exact HT).
  destruct (new_BlackScholes_fields S0 K0 r0 T0 sigma0)
    as (ES & EK & Er & ET & Esig).
  fold this in ES, EK, Er, ET, Esig.
  repeat apply conj.
  - unfold this, new_BlackScholes, calculateD1D2, Spec.d1, pow2. simpl.
    f_equal. ring.
  - reflexivity.
  - unfold callPrice, Spec.callPrice.
    rewrite ES, EK, Er, ET, discount_eq. reflexivity.
  - unfold putPrice, Spec.putPrice.
    rewrite ES, EK, Er, ET, discount_eq. reflexivity.
  - reflexivity.
  - reflexivity.
  - unfold gamma, Spec.gamma. rewrite ES, ET, Esig. reflexivity.
  - unfold vega, Spec.vega. rewrite ES, ET. reflexivity.
  - unfold thetaCall, Spec.thetaCall.
    rewrite ES, EK, Er, ET, Esig, discount_eq. field. lra.
  - unfold rhoCall, Spec.rhoCall.
    rewrite EK, Er, ET, discount_eq. reflexivity.
Qed.

Lemma closed_forms_witness :
  (0 < 100 /\ 0 < 100 /\ 0 < 1 /\ 0 < 0.2) /\
  d1 scenario = Spec.d1 100 100 0.05 1 0.2 /\
  callPrice scenario
  = Spec.callPrice 100 100 0.05 1 0.2 (d1 scenario) (d2 scenario).
Proof.
  assert (H1 : 0 < 100) by lra.
  assert (H2 : 0 < 1) by lra.
  assert (H3 : 0 < 0.2) by lra.
  destruct (closed_forms 100 100 0.05 1 0.2 H1 H1 H2 H3)
    as (E1 & _ & E3 & _).
  repeat apply conj; assumption.
Defined.

(* ================================================================== *)
(** ** 9. The surface sampler *)

Lemma for_loop_step {St : Type} (n i : nat) (body : nat -> St -> St)
    (s : St) :
  for_loop (Datatypes.S n) i body s
  = for_loop n (Datatypes.S i) body (body i s).
Proof. reflexivity. Qed.

Section Surface.

Variables currentS K0 r0 currentT sigma0 : R.

(** The locals of [generateSurfaceData]. *)
Let minS : R := currentS * (1 - 0.50).
Let maxS : R := currentS * (1 + 0.50).
Let stepSizeS : R := (maxS - minS) / INR 30.
Let maxT : R := Rmax (currentT * 1.5) 1.0.
Let stepSizeT : R := maxT / INR 30.

Let spot : nat -> R := spot_at currentS.
Let time : nat -> R := time_at currentT.
Let cell : nat -> nat -> R := cell_at currentS K0 r0 currentT sigma0.

Lemma inner_body_eq (i j : nat) (x_data row_z : list R) :
  inner_body i minS stepSizeS K0 r0 (time i) sigma0 j (x_data, row_z)
  = ((if Nat.eqb i 0 then x_data ++ [spot j] else x_data),
     row_z ++ [cell i j]).
Proof. reflexivity. Qed.

Lemma inner_loop_run (i n j0 : nat) (x_data row_z : list R) :
  for_loop n j0
    (inner_body i minS stepSizeS K0 r0 (time i) sigma0) (x_data, row_z)
  = ((if Nat.eqb i 0 then x_data ++ map spot (seq j0 n) else x_data),
     row_z ++ map (cell i) (seq j0 n)).
Proof.
  revert j0 x_data row_z.
  induction n as [| n IH]; intros j0 x_data row_z.
  - cbn [for_loop seq map]. rewrite !app_nil_r.
    destruct (Nat.eqb i 0); reflexivity.
  - rewrite for_loop_step, inner_body_eq, IH. cbn [seq map].
    destruct (Nat.eqb i 0); rewrite <- ?app_assoc; reflexivity.
Qed.

Lemma outer_body_eq (m i : nat) (x_data y_data : list R)
    (z_data : list (list R)) :
  outer_body m minS stepSizeS stepSizeT K0 r0 sigma0 i
    (x_data, y_data, z_data)
  = ((if Nat.eqb i 0
      then x_data ++ map spot (seq 0 (m + 1)) else x_data),
     y_data ++ [time i],
     z_data ++ [map (cell i) (seq 0 (m + 1))]).
Proof.
  unfold outer_body.
  change (0.01 + INR i * stepSizeT) with (time i).
  rewrite inner_loop_run. reflexivity.
Qed.

Lemma outer_loop_run (m n i0 : nat) (x_data y_data : list R)
    (z_data : list (list R)) :
  for_loop n i0
    (outer_body m minS stepSizeS stepSizeT K0 r0 sigma0)
    (x_data, y_data, z_data)
  = (x_data ++
       (if Nat.eqb i0 0 && negb (Nat.eqb n 0)
        then map spot (seq 0 (m + 1)) else []),
     y_data ++ map time (seq i0 n),
     z_data ++ map (fun i => map (cell i) (seq 0 (m + 1))) (seq i0 n)).
Proof.
  revert i0 x_data y_data z_data.
  induction n as [| n IH]; intros i0 x_data y_data z_data.
  - cbn [for_loop seq map Nat.eqb negb]. rewrite andb_false_r, !app_nil_r.
    reflexivity.
  - rewrite for_loop_step, outer_body_eq, IH.
    cbn [seq map Nat.eqb negb andb].
    destruct (Nat.eqb i0 0); cbn [andb];
      rewrite ?app_nil_r, <- ?app_assoc; reflexivity.
Qed.

(** The sampler in closed form: the three arrays it returns. *)
Lemma generateSurfaceData_run :
  generateSurfaceData currentS K0 r0 currentT sigma0
  = mkSurfaceData
      (map (spot_at currentS) (seq 0 31))
      (map (time_at currentT) (seq 0 31))
      (map (fun i => map (cell_at currentS K0 r0 currentT sigma0 i)
                         (seq 0 31))
           (seq 0 31)).
Proof.
  unfold generateSurfaceData. cbv zeta.
  fold minS. fold maxS. fold stepSizeS. fold maxT. fold stepSizeT.
  rewrite outer_loop_run. reflexivity.
Qed.

End Surface.

Lemma nth_map_seq {A : Type} (f : nat -> A) (a n k : nat) (d : A) :
  (k < n)%nat -> nth k (map f (seq a n)) d = f (a + k)%nat.
Proof.
  intros Hk.
  rewrite (nth_indep _ d (f 0%nat))
    by (rewrite length_map, length_seq; exact Hk).
  rewrite map_nth, seq_nth by exact Hk. reflexivity.
Qed.

Lemma INR_30 : INR 30 = 30.
Proof. rewrite INR_IZR_INZ. reflexivity. Qed.

(** Every point of the time axis: the offset [0.01] plus a multiple of
    [maxT / 30]. *)
Lemma time_axis_points (S0 K0 r0 T0 sigma0 : R) (i : nat) :
  (i < 31)%nat ->
  nth i (y (generateSurfaceData S0 K0 r0 T0 sigma0)) 0
  = 0.01 + INR i * (Rmax (T0 * 1.5) 1.0 / 30).
Proof.
  intros Hi. rewrite generateSurfaceData_run. cbn [y].
  rewrite nth_map_seq by exact Hi.
  unfold time_at. rewrite INR_30. reflexivity.
Qed.

(** C5 (as the code behaves): the time axis has 31 points and starts at
    [0.01], but for every input its last point is [0.01 + max(T * 1.5, 1.0)];
    with [T = 1] it is [1.51], beyond [max(T * 1.5, 1.0) = 1.5]. *)
Theorem time_axis_overshoot :
  (forall S0 K0 r0 T0 sigma0 : R,
      let sd := generateSurfaceData S0 K0 r0 T0 sigma0 in
      length (y sd) = 31%nat /\
      nth 0 (y sd) 0 = 0.01 /\
      nth 30 (y sd) 0 = 0.01 + Rmax (T0 * 1.5) 1.0) /\
  nth 30 (y (generateSurfaceData 100 100 0.05 1 0.2)) 0 = 1.51 /\
  Rmax (1 * 1.5) 1.0 = 1.5.
Proof.
  assert (Hmax : Rmax (1 * 1.5) 1.0 = 1.5).
  { rewrite Rmax_left by lra. lra. }
  split; [| split; [| exact Hmax]].
  - intros S0 K0 r0 T0 sigma0 sd. unfold sd. repeat apply conj.
    + rewrite generateSurfaceData_run. cbn [y].
      rewrite length_map, length_seq. reflexivity.
    + rewrite time_axis_points by lia. simpl INR. lra.
    + rewrite time_axis_points by lia. rewrite INR_30. lra.
  - rewrite time_axis_points by lia. rewrite Hmax, INR_30. lra.
Qed.

(** C6: the sampler returns 31 spots evenly spaced from [S * 0.5] to
    [S * 1.5], 31 times, and a 31 x 31 matrix whose cell [(i, j)] is
    [gamma] of a fresh engine at spot [x[j]] and maturity [y[i]]. *)
Theorem surface_grid (S0 K0 r0 T0 sigma0 : R) :
  0 < S0 -> 0 < K0 -> 0 < T0 -> 0 < sigma0 ->
  let sd := generateSurfaceData S0 K0 r0 T0 sigma0 in
  length (x sd) = 31%nat /\
  length (y sd) = 31%nat /\
  length (z sd) = 31%nat /\
  (forall i : nat, (i < 31)%nat -> length (nth i (z sd) []) = 31%nat) /\
  nth 0 (x sd) 0 = S0 * 0.5 /\
  nth 30 (x sd) 0 = S0 * 1.5 /\
  (forall j : nat, (j < 31)%nat ->
     nth j (x sd) 0 = S0 * 0.5 + INR j * ((S0 * 1.5 - S0 * 0.5) / 30)) /\
  (forall i j : nat, (i < 31)%nat -> (j < 31)%nat ->
     nth j (nth i (z sd) []) 0
     = gamma (new_BlackScholes (nth j (x sd) 0) K0 r0 (nth i (y sd) 0) sigma0)).
Proof.
  intros _ _ _ _ sd. unfold sd. rewrite generateSurfaceData_run. cbn [x y z].
  assert (Hx : forall j : nat, (j < 31)%nat ->
            nth j (map (spot_at S0) (seq 0 31)) 0
            = S0 * 0.5 + INR j * ((S0 * 1.5 - S0 * 0.5) / 30)).
  { intros j Hj. rewrite nth_map_seq by exact Hj.
    unfold spot_at. rewrite INR_30. cbn [Nat.add]. lra. }
  repeat apply conj.
  - rewrite length_map, length_seq. reflexivity.
  - rewrite length_map, length_seq. reflexivity.
  - rewrite length_map, length_seq. reflexivity.
  - intros i Hi. rewrite nth_map_seq by exact Hi.
    rewrite length_map, length_seq. reflexivity.
  - rewrite Hx by lia. simpl INR. lra.
  - rewrite Hx by lia. rewrite INR_30. lra.
  - exact Hx.
  - intros i j Hi Hj.
    rewrite (nth_map_seq _ 0 31 i) by exact Hi.
    rewrite !nth_map_seq by assumption.
    reflexivity.
Qed.

Lemma surface_grid_witness :
  (0 < 100 /\ 0 < 100 /\ 0 < 1 /\ 0 < 0.2) /\
  length (z (generateSurfaceData 100 100 0.05 1 0.2)) = 31%nat /\
  nth 30 (x (generateSurfaceData 100 100 0.05 1 0.2)) 0 = 100 * 1.5.
Proof.
  assert (H1 : 0 < 100) by lra.
  assert (H2 : 0 < 1) by lra.
  assert (H3 : 0 < 0.2) by lra.
  destruct (surface_grid 100 100 0.05 1 0.2 H1 H1 H2 H3)
    as (_ & _ & Hz & _ & _ & Hlast & _).
  repeat apply conj; assumption.
Defined.

(* ================================================================== *)
(** ** 10. The standard normal distribution function *)

(** Elementary enclosures of the exponential. *)
Lemma exp_neg_upper (u : R) : 0 <= u -> exp (- u) <= / (1 + u).
Proof.
  intros Hu. rewrite exp_Ropp.
  apply Rinv_le_contravar; [lra | apply exp_ineq1_le].
Qed.

Lemma exp_neg_lower (u : R) : 1 - u <= exp (- u).
Proof. pose proof (exp_ineq1_le (- u)). lra. Qed.

Lemma y_of_lower (u : R) :
  0 <= u -> 1 - horner (t_of u) * / (1 + u * u) <= y_of u.
Proof.
  intros Hu. unfold y_of.
  destruct (horner_t_range u Hu) as [H0 _].
  replace (- u * u) with (- (u * u)) by ring.
  pose proof (exp_neg_upper (u * u) ltac:(nra)). nra.
Qed.

Lemma y_of_upper (u : R) :
  0 <= u -> y_of u <= 1 - horner (t_of u) * (1 - u * u).
Proof.
  intros Hu. unfold y_of.
  destruct (horner_t_range u Hu) as [H0 _].
  replace (- u * u) with (- (u * u)) by ring.
  pose proof (exp_neg_lower (u * u)). nra.
Qed.

(** The density is continuous, bounded by [0.41], hence integrable on
    every segment. *)
Lemma sqrt_2PI_lower : 2.44 <= sqrt (2 * PI).
Proof.
  pose proof PI2_3_2 as HPI.
  rewrite <- (sqrt_square 2.44) by lra.
  apply sqrt_le_1_alt. lra.
Qed.

Lemma pdf_bounds (u : R) : 0 <= pdf u <= 0.41.
Proof.
  unfold pdf. pose proof sqrt_2PI_lower as Hs.
  pose proof (exp_pos (-0.5 * u * u)) as Hp.
  assert (He : exp (-0.5 * u * u) <= 1).
  { rewrite <- exp_0.
    destruct (Req_dec (-0.5 * u * u) 0) as [E | N].
    - rewrite E. lra.
    - left. apply exp_increasing. nra. }
  assert (Hi : 0 < / sqrt (2 * PI) <= / 2.44).
  { split; [apply Rinv_0_lt_compat; lra |].
    apply Rinv_le_contravar; lra. }
  unfold Rdiv. split; [nra |].
  apply Rle_trans with (1 * / 2.44); [| lra].
  apply Rmult_le_compat; lra.
Qed.

Lemma Phi_upper (u : R) : 0 <= u -> Phi u <= 0.5 + 0.41 * u.
Proof.
  intros Hu. unfold Phi.
  pose proof (RiemannInt_const_bound (l := 0) (u := 0.41)
                (pdf_integrable 0 u) Hu
                (fun v _ => pdf_bounds v)) as [_ H].
  lra.
Qed.

Lemma cdf_half_lower : 0.75 <= cdf 0.5.
Proof.
  rewrite cdf_nonneg_arg by lra.
  pose proof (y_of_lower 0.5 ltac:(lra)) as Hy.
  assert (Hh : horner (t_of 0.5) <= 0.6158).
  { unfold horner, t_of, a1, a2, a3, a4, a5, p. lra. }
  assert (Hi : / (1 + 0.5 * 0.5) = 0.8) by lra.
  rewrite Hi in Hy. lra.
Qed.

(** [Phi] is the antiderivative of the density that takes the value one
    half at the origin. *)
Lemma Phi_0 : Phi 0 = 0.5.
Proof. unfold Phi. rewrite RiemannInt_P9. lra. Qed.

Lemma Phi_derivative (u : R) : derivable_pt_lim Phi u (pdf u).
Proof.
  set (a := Rmin u 0 - 1). set (b := Rmax u 0 + 1).
  assert (Ha : a < u /\ a < 0)
    by (unfold a; pose proof (Rmin_l u 0); pose proof (Rmin_r u 0); lra).
  assert (Hb : u < b /\ 0 < b)
    by (unfold b; pose proof (Rmax_l u 0); pose proof (Rmax_r u 0); lra).
  assert (h : a <= b) by lra.
  pose (C0 := fun (v : R) (_ : a <= v <= b) => pdf_continuity v).
  pose (c := 0.5 - RiemannInt (pdf_integrable a 0)).
  apply (derivable_pt_lim_locally_ext
           (fun v => primitive h (FTC_P1 h C0) v + c) Phi u a b).
  - lra.
  - intros v Hv. unfold primitive.
    destruct (Rle_dec a v) as [Hav |]; [| lra].
    destruct (Rle_dec v b) as [Hvb |]; [| lra].
    unfold Phi, c.
    rewrite <- (RiemannInt_P26 (pdf_integrable a 0) (pdf_integrable 0 v)
                  (FTC_P1 h C0 Hav Hvb)).
    lra.
  - replace (pdf u) with (pdf u + 0) by ring.
    apply (derivable_pt_lim_plus (primitive h (FTC_P1 h C0)) (fun _ => c)).
    + apply RiemannInt_P27. lra.
    + apply derivable_pt_lim_const.
Qed.

(** C1 (as the code behaves): at [x = 0.5] the value of [cdf] exceeds the
    standard normal distribution function by more than [0.04], far above
    the advertised [1.5e-7]; the same holds for the increments from [0]
    to [0.5], which do not depend on how [Phi] is normalised. *)
Theorem cdf_misses_normal_cdf :
  0.04 < cdf 0.5 - Phi 0.5 /\
  0.00000015 < Rabs (cdf 0.5 - Phi 0.5) /\
  0.04 < (cdf 0.5 - cdf 0) - (Phi 0.5 - Phi 0).
Proof.
  pose proof cdf_half_lower as Hc.
  pose proof (Phi_upper 0.5 ltac:(lra)) as Hp.
  assert (H : 0.04 < cdf 0.5 - Phi 0.5) by lra.
  repeat apply conj.
  - exact H.
  - rewrite Rabs_pos_eq; lra.
  - rewrite cdf_0, Phi_0. lra.
Qed.

(* ================================================================== *)
(** ** 11. The reference scenario [S=100, K=100, r=0.05, T=1, sigma=0.2] *)

Lemma scenario_d1 : d1 scenario = 0.35.
Proof.
  unfold scenario, new_BlackScholes, calculateD1D2, pow2. cbn [d1 S K r T sigma].
  replace (100 / 100) with 1 by lra.
  rewrite ln_1, sqrt_1. lra.
Qed.

Lemma scenario_d2 : d2 scenario = 0.15.
Proof.
  assert (E : d2 scenario = d1 scenario - 0.2 * sqrt 1) by reflexivity.
  rewrite E, scenario_d1, sqrt_1. lra.
Qed.

Lemma cdf_035_lower : 0.6874 <= cdf 0.35.
Proof.
  rewrite cdf_nonneg_arg by lra.
  pose proof (y_of_lower 0.35 ltac:(lra)) as Hy.
  assert (Hh : horner (t_of 0.35) <= 0.7016).
  { unfold horner, t_of, a1, a2, a3, a4, a5, p. lra. }
  assert (Hi : / (1 + 0.35 * 0.35) <= 0.8909).
  { apply (Rmult_le_reg_r (1 + 0.35 * 0.35)); [lra |].
    rewrite Rinv_l by lra. lra. }
  assert (Hi0 : 0 < / (1 + 0.35 * 0.35)) by (apply Rinv_0_lt_compat; lra).
  destruct (horner_t_range 0.35 ltac:(lra)) as [H0 _].
  nra.
Qed.

Lemma cdf_015_upper : cdf 0.15 <= 0.5842.
Proof.
  rewrite cdf_nonneg_arg by lra.
  pose proof (y_of_upper 0.15 ltac:(lra)) as Hy.
  assert (Hh : 0.8509 <= horner (t_of 0.15)).
  { unfold horner, t_of, a1, a2, a3, a4, a5, p. lra. }
  nra.
Qed.

(** C2 (as the code behaves): in the reference scenario [d1] and [d2] are
    [0.35] and [0.15], but [deltaCall] is above [0.68] (not [0.6368]),
    [callPrice] above [13] (not [10.45]) and [putPrice] above [8]
    (not [5.57]). *)
Theorem scenario_values :
  d1 scenario = 0.35 /\ d2 scenario = 0.15 /\
  0.68 < deltaCall scenario /\
  13 < callPrice scenario /\
  8 < putPrice scenario.
Proof.
  pose proof cdf_035_lower as H35.
  pose proof cdf_015_upper as H15.
  pose proof (cdf_reflection_exact 0.35 ltac:(lra)) as R35.
  pose proof (cdf_reflection_exact 0.15 ltac:(lra)) as R15.
  pose proof (cdf_range 0.15) as [L15 _].
  assert (ES : S scenario = 100) by reflexivity.
  assert (EK : K scenario = 100) by reflexivity.
  assert (Er : r scenario = 0.05) by reflexivity.
  assert (ET : T scenario = 1) by reflexivity.
  assert (Hup : exp (- (0.05) * 1) <= / 1.05).
  { replace (- (0.05) * 1) with (- (0.05)) by lra.
    replace 1.05 with (1 + 0.05) by lra.
    apply exp_neg_upper. lra. }
  assert (Hlo : 0.95 <= exp (- (0.05) * 1)).
  { replace (- (0.05) * 1) with (- (0.05)) by lra.
    pose proof (exp_neg_lower 0.05). lra. }
  assert (Hinv : / 1.05 <= 0.9524).
  { apply (Rmult_le_reg_r 1.05); [lra |]. rewrite Rinv_l by lra. lra. }
  repeat apply conj.
  - exact scenario_d1.
  - exact scenario_d2.
  - unfold deltaCall. rewrite scenario_d1. lra.
  - unfold callPrice. rewrite ES, EK, Er, ET, scenario_d1, scenario_d2. nra.
  - unfold putPrice. rewrite ES, EK, Er, ET, scenario_d1, scenario_d2. nra.
Qed.

(* ================================================================== *)
(** ** 12. Put-call parity *)

(** The defect of the reflection identity: zero away from the origin,
    [1e-9] at the origin. *)
Lemma cdf_reflection_gap (u : R) :
  0 <= cdf u + cdf (- u) - 1 <= 0.000000001.
Proof.
  destruct (Req_dec u 0) as [E | N].
  - subst u. rewrite Ropp_0, cdf_0. lra.
  - rewrite (cdf_reflection_exact u N). lra.
Qed.

Lemma parity_split (this : BlackScholes) :
  callPrice this - putPrice this
  - (S this - K this * exp (- r this * T this))
  = S this * (cdf (d1 this) + cdf (- d1 this) - 1)
    - K this * exp (- r this * T this)
      * (cdf (d2 this) + cdf (- d2 this) - 1).
Proof. unfold callPrice, putPrice. ring. Qed.

(** C4 (amended): parity is exact whenever neither cached value is zero,
    and in every case holds within [1e-9] of the magnitude
    [S + K * exp(-r T)] of its two terms. *)
Theorem put_call_parity (S0 K0 r0 T0 sigma0 : R) :
  0 < S0 -> 0 < K0 -> 0 < T0 -> 0 < sigma0 ->
  let this := new_BlackScholes S0 K0 r0 T0 sigma0 in
  (d1 this <> 0 -> d2 this <> 0 ->
     callPrice this - putPrice this = S0 - K0 * exp (- r0 * T0)) /\
  Rabs (callPrice this - putPrice this - (S0 - K0 * exp (- r0 * T0)))
    <= 0.000000001 * (S0 + K0 * exp (- r0 * T0)).
Proof.
  intros HS HK _ _ this.
  pose proof (parity_split this) as E.
  replace (S this) with S0 in E by reflexivity.
  replace (K this) with K0 in E by reflexivity.
  replace (r this) with r0 in E by reflexivity.
  replace (T this) with T0 in E by reflexivity.
  pose proof (exp_pos (- r0 * T0)) as He.
  assert (HKe : 0 < K0 * exp (- r0 * T0)) by (apply Rmult_lt_0_compat; lra).
  split.
  - intros N1 N2.
    rewrite (cdf_reflection_exact _ N1), (cdf_reflection_exact _ N2) in E.
    lra.
  - rewrite E.
    pose proof (cdf_reflection_gap (d1 this)) as G1.
    pose proof (cdf_reflection_gap (d2 this)) as G2.
    apply Rabs_le. split; nra.
Qed.

Lemma put_call_parity_witness :
  (0 < 100 /\ 0 < 100 /\ 0 < 1 /\ 0 < 0.2) /\
  Rabs (callPrice scenario - putPrice scenario
        - (100 - 100 * exp (- (0.05) * 1)))
    <= 0.000000001 * (100 + 100 * exp (- (0.05) * 1)).
Proof.
  assert (H1 : 0 < 100) by lra.
  assert (H2 : 0 < 1) by lra.
  assert (H3 : 0 < 0.2) by lra.
  destruct (put_call_parity 100 100 0.05 1 0.2 H1 H1 H2 H3) as [_ Hb].
  repeat apply conj; assumption.
Defined.

Lemma flat_d1 : d1 flat = 0.
Proof.
  unfold flat, new_BlackScholes, calculateD1D2, pow2. cbn [d1 S K r T sigma].
  replace (100 / 100) with 1 by lra.
  rewrite ln_1, sqrt_1. lra.
Qed.

Lemma flat_d2 : d2 flat = - (0.0009765625).
Proof.
  assert (E : d2 flat = d1 flat - 0.0009765625 * sqrt 1) by reflexivity.
  rewrite E, flat_d1, sqrt_1. lra.
Qed.

(** C4 (as stated) fails: for [flat] the two sides of the parity differ
    by [1e-7], more than [1e-4] times the larger of their magnitudes. *)
Lemma parity_relative_counterexample :
  (0 < 100 /\ 0 < 1 /\ 0 < 0.0009765625) /\
  0.0001 * Rmax (Rabs (callPrice flat - putPrice flat))
                (Rabs (S flat - K flat * exp (- r flat * T flat)))
  < Rabs (callPrice flat - putPrice flat
          - (S flat - K flat * exp (- r flat * T flat))).
Proof.
  split; [lra |].
  pose proof (parity_split flat) as E.
  rewrite flat_d1, flat_d2, Ropp_0, cdf_0 in E.
  rewrite (cdf_reflection_exact (- (0.0009765625))) in E by lra.
  assert (ES : S flat = 100) by reflexivity.
  assert (EK : K flat = 100) by reflexivity.
  assert (Er : r flat = -0.000000476837158203125) by reflexivity.
  assert (ET : T flat = 1) by reflexivity.
  rewrite ES, EK, Er, ET in *.
  set (E0 := exp (- (-0.000000476837158203125) * 1)) in *.
  assert (Hlo : 1 + 0.000000476837158203125 <= E0).
  { unfold E0.
    replace (- (-0.000000476837158203125) * 1)
      with 0.000000476837158203125 by lra.
    apply exp_ineq1_le. }
  assert (Hup : E0 <= 1.0000005).
  { unfold E0.
    replace (- (-0.000000476837158203125) * 1)
      with (- (-0.000000476837158203125)) by lra.
    rewrite exp_Ropp.
    pose proof (exp_ineq1_le (-0.000000476837158203125)) as H.
    apply (Rmult_le_reg_r (exp (-0.000000476837158203125)));
      [apply exp_pos |].
    rewrite Rinv_l by (apply Rgt_not_eq, exp_pos). nra. }
  assert (Ediff : callPrice flat - putPrice flat - (100 - 100 * E0)
                  = 0.0000001) by lra.
  rewrite Ediff.
  rewrite (Rabs_pos_eq 0.0000001) by lra.
  rewrite (Rabs_left (100 - 100 * E0)) by lra.
  rewrite (Rabs_left (callPrice flat - putPrice flat)) by lra.
  rewrite Rmax_right by lra.
  lra.
Qed.

(* ================================================================== *)
(** ** 13. Finiteness of the cached values *)

Lemma add_inf_not_finite (v : Ieee.number) :
  Ieee.is_finite (Ieee.add (S754_infinity false) v) = false.
Proof. destruct v as [s | s | | s m e]; try destruct s; reflexivity. Qed.

Lemma div_not_finite (a b : Ieee.number) :
  Ieee.is_finite a = false -> Ieee.is_finite (Ieee.div a b) = false.
Proof.
  destruct a as [s | s | | s m e]; intros H; try discriminate H;
    destruct b as [s' | s' | | s' m' e']; reflexivity.
Qed.

Lemma sub_not_finite (a b : Ieee.number) :
  Ieee.is_finite a = false -> Ieee.is_finite (Ieee.sub a b) = false.
Proof.
  destruct a as [s | s | | s m e]; intros H; try discriminate H;
    destruct b as [s' | s' | | s' m' e'];
    try destruct s; try destruct s'; reflexivity.
Qed.

(** [1e300 / 1e-300] overflows. *)
Lemma overflow_quotient :
  Ieee.div Ieee.n_1e300 Ieee.n_1em300 = S754_infinity false.
Proof. vm_compute. reflexivity. Qed.

(** C9 (as stated) fails: [S = 1e300], [K = 1e-300], [r = 0.05], [T = 1],
    [sigma = 0.2] are positive finite doubles, yet whatever the
    implementation-approximated functions return, [S / K] is [+Infinity],
    so is its logarithm, and neither [d1] nor [d2] is finite. *)
Lemma finiteness_counterexample :
  Ieee.valid_input
    Ieee.n_1e300 Ieee.n_1em300 Ieee.n_0_05 Ieee.n_1 Ieee.n_0_2 = true /\
  forall lib : Ieee.MathLib,
    let this :=
      Ieee.new_BlackScholes lib
        Ieee.n_1e300 Ieee.n_1em300 Ieee.n_0_05 Ieee.n_1 Ieee.n_0_2 in
    Ieee.is_finite (Ieee.d1 this) = false /\
    Ieee.is_finite (Ieee.d2 this) = false.
Proof.
  split; [vm_compute; reflexivity |].
  intros lib this.
  assert (H1 : Ieee.is_finite (Ieee.d1 this) = false).
  { unfold this, Ieee.new_BlackScholes, Ieee.calculateD1D2.
    cbn [Ieee.d1 Ieee.S Ieee.K Ieee.r Ieee.T Ieee.sigma].
    rewrite overflow_quotient. cbn [Ieee.Math_log].
    apply div_not_finite, add_inf_not_finite. }
  split; [exact H1 |].
  change (Ieee.d2 this) with
    (Ieee.sub (Ieee.d1 this)
       (Ieee.mul Ieee.n_0_2 (Ieee.Math_sqrt lib Ieee.n_1))).
  apply sub_not_finite, H1.
Qed.

(** C9 (amended): on valid parameters, in exact arithmetic, the argument
    of the logarithm and every divisor of the engine (in [calculateD1D2],
    [gamma] and [thetaCall]) is strictly positive. *)
Theorem no_singular_operation (S0 K0 r0 T0 sigma0 : R) :
  0 < S0 -> 0 < K0 -> 0 < T0 -> 0 < sigma0 ->
  let this := new_BlackScholes S0 K0 r0 T0 sigma0 in
  0 < S this / K this /\
  0 < sigma this * sqrt (T this) /\
  0 < S this * sigma this * sqrt (T this) /\
  0 < 2 * sqrt (T this).
Proof.
  intros HS HK HT Hsig this.
  replace (S this) with S0 by reflexivity.
  replace (K this) with K0 by reflexivity.
  replace (T this) with T0 by reflexivity.
  replace (sigma this) with sigma0 by reflexivity.
  assert (Hsq : 0 < sqrt T0) by (apply sqrt_lt_R0; exact HT).
  repeat apply conj.
  - apply Rdiv_lt_0_compat; assumption.
  - apply Rmult_lt_0_compat; assumption.
  - repeat apply Rmult_lt_0_compat; assumption.
  - lra.
Qed.

Lemma no_singular_operation_witness :
  (0 < 100 /\ 0 < 100 /\ 0 < 1 /\ 0 < 0.2) /\
  0 < S scenario / K scenario /\
  0 < sigma scenario * sqrt (T scenario).
Proof.
  assert (H1 : 0 < 100) by lra.
  assert (H2 : 0 < 1) by lra.
  assert (H3 : 0 < 0.2) by lra.
  destruct (no_singular_operation 100 100 0.05 1 0.2 H1 H1 H2 H3)
    as (Hlog & Hden & _).
  repeat apply conj; assumption.
Defined.

(* ################################################################## *)
(** * Part III: further properties of the engine *)

(* ================================================================== *)
(** ** 14. The density [pdf] *)

Lemma sqrt_2PI_pos : 0 < sqrt (2 * PI).
Proof. pose proof sqrt_2PI_lower. lra. Qed.

Lemma sq_le_of_Rabs (u v : R) : Rabs u <= Rabs v -> u * u <= v * v.
Proof.
  intros H.
  pose proof (Rabs_pos u) as Hu.
  replace (u * u) with (Rabs u * Rabs u)
    by (unfold Rabs; destruct (Rcase_abs u); ring).
  replace (v * v) with (Rabs v * Rabs v)
    by (unfold Rabs; destruct (Rcase_abs v); ring).
  nra.
Qed.

Lemma exp_le_mono (u v : R) : u <= v -> exp u <= exp v.
Proof.
  intros [H | H]; [left; apply exp_increasing; exact H | rewrite H; lra].
Qed.



(** X2: [pdf] is non-increasing in the absolute value of its argument. *)
Theorem pdf_unimodal (u v : R) : Rabs u <= Rabs v -> pdf v <= pdf u.
Proof.
  intros H. pose proof (sq_le_of_Rabs u v H) as Hsq.
  pose proof sqrt_2PI_pos as Hs.
  assert (Hi : 0 < / sqrt (2 * PI)) by (apply Rinv_0_lt_compat; exact Hs).
  unfold pdf, Rdiv.
  apply Rmult_le_compat_r; [lra |].
  apply exp_le_mono. nra.
Qed.

Lemma pdf_unimodal_witness : Rabs 1 <= Rabs (-2) /\ pdf (-2) <= pdf 1.
Proof.
  assert (H : Rabs 1 <= Rabs (-2)).
  { rewrite Rabs_pos_eq by lra. rewrite Rabs_left by lra. lra. }
  split; [exact H | exact (pdf_unimodal 1 (-2) H)].
Defined.

(* ================================================================== *)
(** ** 15. Further behaviour of [cdf] *)

(** X3: [cdf] jumps over one half at the origin: it is at most
    [0.4999999995] on negative arguments and at least [0.5000000005] on
    non-negative ones, so it never returns [0.5]. *)
Theorem cdf_origin_gap :
  (forall u : R, u < 0 -> cdf u <= 0.4999999995) /\
  (forall u : R, 0 <= u -> 0.5000000005 <= cdf u).
Proof.
  split; intros u Hu.
  - rewrite (cdf_neg_arg u Hu).
    pose proof (y_of_increasing 0 (- u) ltac:(lra) ltac:(lra)) as H.
    rewrite y_of_0 in H. lra.
  - rewrite (cdf_nonneg_arg u Hu).
    pose proof (y_of_increasing 0 u ltac:(lra) Hu) as H.
    rewrite y_of_0 in H. lra.
Qed.

(** X4: Gaussian tails: [cdf(x) >= 1 - exp(-x^2) / 2] for [x >= 0] and
    [cdf(x) <= exp(-x^2) / 2] for [x < 0]. *)
Theorem cdf_tails :
  (forall u : R, 0 <= u -> 1 - 0.5 * exp (- (u * u)) <= cdf u) /\
  (forall u : R, u < 0 -> cdf u <= 0.5 * exp (- (u * u))).
Proof.
  assert (Hy : forall v : R, 0 <= v -> 1 - exp (- (v * v)) <= y_of v).
  { intros v Hv. unfold y_of.
    destruct (horner_t_range v Hv) as [H0 H1].
    replace (- v * v) with (- (v * v)) by ring.
    pose proof (exp_pos (- (v * v))). nra. }
  split; intros u Hu.
  - rewrite (cdf_nonneg_arg u Hu). pose proof (Hy u Hu). lra.
  - rewrite (cdf_neg_arg u Hu). pose proof (Hy (- u) ltac:(lra)) as H.
    replace (- u * - u) with (u * u) in H by ring. lra.
Qed.

(* ================================================================== *)
(** ** 16. Prices and Greeks on valid parameters *)

Lemma engine_d2_le_d1 (S0 K0 r0 T0 sigma0 : R) :
  0 < T0 -> 0 < sigma0 ->
  d2 (new_BlackScholes S0 K0 r0 T0 sigma0)
  <= d1 (new_BlackScholes S0 K0 r0 T0 sigma0).
Proof.
  intros HT Hsig.
  assert (Hq : 0 < sqrt T0) by (apply sqrt_lt_R0; exact HT).
  change (d2 (new_BlackScholes S0 K0 r0 T0 sigma0))
    with (d1 (new_BlackScholes S0 K0 r0 T0 sigma0) - sigma0 * sqrt T0).
  nra.
Qed.


(** X5: on valid parameters the call is worth at most the spot and the
    put at most the discounted strike; the call is at least
    [(S - K e^(-rT)) * cdf(d2)] and the put at least
    [(K e^(-rT) - S) * cdf(-d1)]. *)
Theorem price_bounds (S0 K0 r0 T0 sigma0 : R) :
  0 < S0 -> 0 < K0 -> 0 < T0 -> 0 < sigma0 ->
  let this := new_BlackScholes S0 K0 r0 T0 sigma0 in
  callPrice this <= S0 /\
  putPrice this <= K0 * exp (- r0 * T0) /\
  (S0 - K0 * exp (- r0 * T0)) * cdf (d2 this) <= callPrice this /\
  (K0 * exp (- r0 * T0) - S0) * cdf (- d1 this) <= putPrice this.
Proof.
  intros HS HK HT Hsig this.
  assert (HD : 0 < K0 * exp (- r0 * T0)).
  { apply Rmult_lt_0_compat; [exact HK | apply exp_pos]. }
  pose proof (engine_d2_le_d1 S0 K0 r0 T0 sigma0 HT Hsig) as Hd.
  fold this in Hd.
  pose proof (cdf_range (d1 this)) as C1.
  pose proof (cdf_range (d2 this)) as C2.
  pose proof (cdf_range (- d1 this)) as C3.
  pose proof (cdf_range (- d2 this)) as C4.
  pose proof (cdf_monotone _ _ Hd) as M.
  pose proof (cdf_monotone (- d1 this) (- d2 this) ltac:(lra)) as M'.
  unfold callPrice, putPrice.
  replace (S this) with S0 by reflexivity.
  replace (K this) with K0 by reflexivity.
  replace (r this) with r0 by reflexivity.
  replace (T this) with T0 by reflexivity.
  set (D := K0 * exp (- r0 * T0)) in *.
  repeat apply conj; nra.
Qed.

Lemma price_bounds_witness :
  (0 < 100 /\ 0 < 100 /\ 0 < 1 /\ 0 < 0.2) /\
  callPrice scenario <= 100 /\
  putPrice scenario <= 100 * exp (- (0.05) * 1).
Proof.
  assert (H1 : 0 < 100) by lra.
  assert (H2 : 0 < 1) by lra.
  assert (H3 : 0 < 0.2) by lra.
  destruct (price_bounds 100 100 0.05 1 0.2 H1 H1 H2 H3) as (Hc & Hp & _).
  repeat apply conj; assumption.
Defined.





(** X8: on valid parameters [rhoCall] lies between zero and
    [K * T * exp(-r T) / 100]. *)
Theorem rho_bounds (S0 K0 r0 T0 sigma0 : R) :
  0 < S0 -> 0 < K0 -> 0 < T0 -> 0 < sigma0 ->
  0 <= rhoCall (new_BlackScholes S0 K0 r0 T0 sigma0)
    <= K0 * T0 * exp (- r0 * T0) / 100.
Proof.
  intros HS HK HT Hsig.
  set (this := new_BlackScholes S0 K0 r0 T0 sigma0).
  pose proof (cdf_range (d2 this)) as C2.
  pose proof (exp_pos (- r0 * T0)) as He.
  unfold rhoCall.
  replace (K this) with K0 by reflexivity.
  replace (r this) with r0 by reflexivity.
  replace (T this) with T0 by reflexivity.
  assert (HA : 0 < K0 * T0 * exp (- r0 * T0)).
  { apply Rmult_lt_0_compat; [apply Rmult_lt_0_compat |]; assumption. }
  split; nra.
Qed.

Lemma rho_bounds_witness :
  (0 < 100 /\ 0 < 100 /\ 0 < 1 /\ 0 < 0.2) /\
  0 <= rhoCall scenario <= 100 * 1 * exp (- (0.05) * 1) / 100.
Proof.
  assert (H1 : 0 < 100) by lra.
  assert (H2 : 0 < 1) by lra.
  assert (H3 : 0 < 0.2) by lra.
  pose proof (rho_bounds 100 100 0.05 1 0.2 H1 H1 H2 H3) as Hr.
  split; [repeat apply conj; assumption | exact Hr].
Defined.

(** X9: the engine is homogeneous in [(S, K)]: scaling spot and strike by
    the same positive factor leaves [d1], [d2] and the deltas unchanged,
    scales prices, [vega], [thetaCall] and [rhoCall] by that factor and
    [gamma] by its inverse. *)
Theorem engine_homogeneous (c S0 K0 r0 T0 sigma0 : R) :
  0 < c -> 0 < S0 -> 0 < K0 -> 0 < T0 -> 0 < sigma0 ->
  let a := new_BlackScholes S0 K0 r0 T0 sigma0 in
  let b := new_BlackScholes (c * S0) (c * K0) r0 T0 sigma0 in
  d1 b = d1 a /\ d2 b = d2 a /\
  callPrice b = c * callPrice a /\
  putPrice b = c * putPrice a /\
  deltaCall b = deltaCall a /\
  deltaPut b = deltaPut a /\
  gamma b = gamma a / c /\
  vega b = c * vega a /\
  thetaCall b = c * thetaCall a /\
  rhoCall b = c * rhoCall a.
Proof.
  intros Hc HS HK HT Hsig a b.
  assert (Hq : 0 < sqrt T0) by (apply sqrt_lt_R0; exact HT).
  assert (E1 : d1 b = d1 a).
  { unfold a, b, new_BlackScholes, calculateD1D2. cbn [d1 S K r T sigma].
    replace (c * S0 / (c * K0)) with (S0 / K0) by (field; lra).
    reflexivity. }
  assert (E2 : d2 b = d2 a).
  { change (d2 b) with (d1 b - sigma0 * sqrt T0).
    change (d2 a) with (d1 a - sigma0 * sqrt T0).
    rewrite E1. reflexivity. }
  unfold callPrice, putPrice, deltaCall, deltaPut, gamma, vega, thetaCall,
    rhoCall.
  rewrite E1, E2.
  replace (S b) with (c * S0) by reflexivity.
  replace (K b) with (c * K0) by reflexivity.
  replace (S a) with S0 by reflexivity.
  replace (K a) with K0 by reflexivity.
  replace (r b) with r0 by reflexivity.
  replace (T b) with T0 by reflexivity.
  replace (sigma b) with sigma0 by reflexivity.
  replace (r a) with r0 by reflexivity.
  replace (T a) with T0 by reflexivity.
  replace (sigma a) with sigma0 by reflexivity.
  repeat apply conj; try reflexivity; try ring; field; lra.
Qed.

Lemma engine_homogeneous_witness :
  (0 < 2 /\ 0 < 100 /\ 0 < 1 /\ 0 < 0.2) /\
  callPrice (new_BlackScholes (2 * 100) (2 * 100) 0.05 1 0.2)
  = 2 * callPrice scenario.
Proof.
  assert (H0 : 0 < 2) by lra.
  assert (H1 : 0 < 100) by lra.
  assert (H2 : 0 < 1) by lra.
  assert (H3 : 0 < 0.2) by lra.
  destruct (engine_homogeneous 2 100 100 0.05 1 0.2 H0 H1 H1 H2 H3)
    as (_ & _ & Hc & _).
  repeat apply conj; assumption.
Defined.

(** X10: [d1], and with it [deltaCall] and [deltaPut], is non-decreasing
    in the spot price. *)
Theorem delta_monotone_in_spot (S1 S2 K0 r0 T0 sigma0 : R) :
  0 < S1 -> S1 <= S2 -> 0 < K0 -> 0 < T0 -> 0 < sigma0 ->
  let a := new_BlackScholes S1 K0 r0 T0 sigma0 in
  let b := new_BlackScholes S2 K0 r0 T0 sigma0 in
  d1 a <= d1 b /\
  deltaCall a <= deltaCall b /\
  deltaPut a <= deltaPut b.
Proof.
  intros H1 H12 HK HT Hsig a b.
  assert (Hq : 0 < sqrt T0) by (apply sqrt_lt_R0; exact HT).
  assert (Hden : 0 < / (sigma0 * sqrt T0)).
  { apply Rinv_0_lt_compat, Rmult_lt_0_compat; assumption. }
  assert (Hln : ln (S1 / K0) <= ln (S2 / K0)).
  { assert (Hi : 0 < / K0) by (apply Rinv_0_lt_compat; exact HK).
    assert (Hpos : 0 < S1 / K0) by (unfold Rdiv; nra).
    destruct H12 as [Hlt | Heq].
    - left. apply ln_increasing; [exact Hpos |]. unfold Rdiv. nra.
    - rewrite Heq. lra. }
  assert (Hd : d1 a <= d1 b).
  { unfold a, b, new_BlackScholes, calculateD1D2. cbn [d1 S K r T sigma].
    unfold Rdiv at 1 3.
    apply Rmult_le_compat_r; lra. }
  pose proof (cdf_monotone _ _ Hd) as M.
  unfold deltaCall, deltaPut. repeat apply conj; lra.
Qed.

Lemma delta_monotone_in_spot_witness :
  (0 < 90 /\ 90 <= 100 /\ 0 < 100 /\ 0 < 1 /\ 0 < 0.2) /\
  deltaCall (new_BlackScholes 90 100 0.05 1 0.2) <= deltaCall scenario.
Proof.
  assert (H0 : 0 < 90) by lra.
  assert (H01 : 90 <= 100) by lra.
  assert (H1 : 0 < 100) by lra.
  assert (H2 : 0 < 1) by lra.
  assert (H3 : 0 < 0.2) by lra.
  destruct (delta_monotone_in_spot 90 100 100 0.05 1 0.2 H0 H01 H1 H2 H3)
    as (_ & Hc & _).
  repeat apply conj; assumption.
Defined.

(** X11: at the forward strike, [S = K * exp(-r T)], the cached values
    are [d1 = sigma * sqrt(T) / 2 = - d2] and the call and the put have
    exactly the same price. *)
Theorem forward_strike_symmetry (K0 r0 T0 sigma0 : R) :
  0 < K0 -> 0 < T0 -> 0 < sigma0 ->
  let this :=
    new_BlackScholes (K0 * exp (- r0 * T0)) K0 r0 T0 sigma0 in
  d1 this = 0.5 * sigma0 * sqrt T0 /\
  d2 this = - d1 this /\
  callPrice this = putPrice this.
Proof.
  intros HK HT Hsig this.
  assert (Hq : 0 < sqrt T0) by (apply sqrt_lt_R0; exact HT).
  pose proof (sqrt_sqrt T0 ltac:(lra)) as Hqq.
  assert (E1 : d1 this = 0.5 * sigma0 * sqrt T0).
  { unfold this, new_BlackScholes, calculateD1D2, pow2.
    cbn [d1 S K r T sigma].
    replace (K0 * exp (- r0 * T0) / K0) with (exp (- r0 * T0))
      by (field; lra).
    rewrite ln_exp.
    set (q := sqrt T0) in *. rewrite <- Hqq. field. lra. }
  assert (E2 : d2 this = - d1 this).
  { change (d2 this) with (d1 this - sigma0 * sqrt T0). rewrite E1. lra. }
  repeat apply conj; [exact E1 | exact E2 |].
  assert (N1 : d1 this <> 0) by (rewrite E1; nra).
  assert (N2 : d2 this <> 0) by (rewrite E2, E1; nra).
  pose proof (parity_split this) as P.
  rewrite (cdf_reflection_exact _ N1), (cdf_reflection_exact _ N2) in P.
  replace (S this) with (K0 * exp (- r0 * T0)) in P by reflexivity.
  replace (K this) with K0 in P by reflexivity.
  replace (r this) with r0 in P by reflexivity.
  replace (T this) with T0 in P by reflexivity.
  lra.
Qed.

Lemma forward_strike_symmetry_witness :
  (0 < 100 /\ 0 < 1 /\ 0 < 0.2) /\
  callPrice (new_BlackScholes (100 * exp (- (0.05) * 1)) 100 0.05 1 0.2)
  = putPrice (new_BlackScholes (100 * exp (- (0.05) * 1)) 100 0.05 1 0.2).
Proof.
  assert (H1 : 0 < 100) by lra.
  assert (H2 : 0 < 1) by lra.
  assert (H3 : 0 < 0.2) by lra.
  destruct (forward_strike_symmetry 100 0.05 1 0.2 H1 H2 H3) as (_ & _ & E).
  repeat apply conj; assumption.
Defined.

(* ================================================================== *)
(** ** 17. The sampled grid *)

Lemma spot_axis_points (S0 K0 r0 T0 sigma0 : R) (j : nat) :
  (j < 31)%nat ->
  nth j (x (generateSurfaceData S0 K0 r0 T0 sigma0)) 0 = spot_at S0 j.
Proof.
  intros Hj. rewrite generateSurfaceData_run. cbn [x].
  rewrite nth_map_seq by exact Hj. reflexivity.
Qed.

Lemma time_axis_at (S0 K0 r0 T0 sigma0 : R) (i : nat) :
  (i < 31)%nat ->
  nth i (y (generateSurfaceData S0 K0 r0 T0 sigma0)) 0 = time_at T0 i.
Proof.
  intros Hi. rewrite generateSurfaceData_run. cbn [y].
  rewrite nth_map_seq by exact Hi. reflexivity.
Qed.


Lemma spot_at_eq (S0 : R) (j : nat) :
  spot_at S0 j = S0 * 0.5 + INR j * (S0 / 30).
Proof. unfold spot_at. rewrite INR_30. lra. Qed.

Lemma time_step_pos (T0 : R) : / 30 <= Rmax (T0 * 1.5) 1.0 / 30.
Proof. pose proof (Rmax_r (T0 * 1.5) 1.0). lra. Qed.

Lemma time_at_eq (T0 : R) (i : nat) :
  time_at T0 i = 0.01 + INR i * (Rmax (T0 * 1.5) 1.0 / 30).
Proof. unfold time_at. rewrite INR_30. reflexivity. Qed.

Lemma INR_lt_31 (i : nat) : (i < 31)%nat -> 0 <= INR i <= 30.
Proof.
  intros Hi. split; [apply pos_INR |].
  rewrite <- INR_30. apply le_INR. lia.
Qed.

Lemma time_at_floor (T0 : R) (i : nat) : 0.01 <= time_at T0 i.
Proof.
  rewrite time_at_eq. pose proof (pos_INR i). pose proof (time_step_pos T0).
  nra.
Qed.

(** X12: whatever [T] is (zero and negative values included), every point
    of the time axis is at least [0.01], the axis is strictly increasing,
    and it reaches beyond one year. *)
Theorem time_axis_floor (S0 K0 r0 T0 sigma0 : R) :
  let sd := generateSurfaceData S0 K0 r0 T0 sigma0 in
  (forall i : nat, (i < 31)%nat -> 0.01 <= nth i (y sd) 0) /\
  (forall i j : nat, (i < j)%nat -> (j < 31)%nat ->
     nth i (y sd) 0 < nth j (y sd) 0) /\
  1.01 <= nth 30 (y sd) 0.
Proof.
  intros sd. unfold sd. repeat apply conj.
  - intros i Hi. rewrite time_axis_at by exact Hi. apply time_at_floor.
  - intros i j Hij Hj. rewrite !time_axis_at by lia.
    rewrite !time_at_eq.
    pose proof (lt_INR _ _ Hij). pose proof (time_step_pos T0). nra.
  - rewrite time_axis_at by lia. rewrite time_at_eq, INR_30.
    pose proof (Rmax_r (T0 * 1.5) 1.0). lra.
Qed.

(** X13: for a positive spot the spot axis is strictly increasing, stays
    within [[0.5 S, 1.5 S]], and its middle point [x[15]] is the current
    spot itself. *)
Theorem spot_axis_centered (S0 K0 r0 T0 sigma0 : R) :
  0 < S0 ->
  let sd := generateSurfaceData S0 K0 r0 T0 sigma0 in
  (forall j : nat, (j < 31)%nat ->
     S0 * 0.5 <= nth j (x sd) 0 <= S0 * 1.5) /\
  (forall i j : nat, (i < j)%nat -> (j < 31)%nat ->
     nth i (x sd) 0 < nth j (x sd) 0) /\
  nth 15 (x sd) 0 = S0.
Proof.
  intros HS sd. unfold sd. repeat apply conj.
  - intros j Hj. rewrite spot_axis_points by exact Hj.
    rewrite spot_at_eq. pose proof (INR_lt_31 j Hj). split; nra.
  - intros i j Hij Hj. rewrite !spot_axis_points by lia.
    rewrite !spot_at_eq. pose proof (lt_INR _ _ Hij). nra.
  - rewrite spot_axis_points by lia. rewrite spot_at_eq.
    replace (INR 15) with 15 by (rewrite INR_IZR_INZ; reflexivity). lra.
Qed.

Lemma spot_axis_centered_witness :
  0 < 100 /\ nth 15 (x (generateSurfaceData 100 100 0.05 1 0.2)) 0 = 100.
Proof.
  assert (H : 0 < 100) by lra.
  destruct (spot_axis_centered 100 100 0.05 1 0.2 H) as (_ & _ & E).
  split; assumption.
Defined.



(* ================================================================== *)
(** ** 18. Invalid inputs over IEEE-754 doubles *)

Lemma add_not_finite (a b : Ieee.number) :
  Ieee.is_finite a = false -> Ieee.is_finite (Ieee.add a b) = false.
Proof.
  destruct a as [s | s | | s m e]; intros H; try discriminate H;
    destruct b as [s' | s' | | s' m' e'];
    try destruct s; try destruct s'; reflexivity.
Qed.

Lemma log_outside_domain (lib : Ieee.MathLib) (v : Ieee.number) :
  in_log_domain v = false -> Ieee.is_finite (Ieee.Math_log lib v) = false.
Proof.
  destruct v as [s | s | | s m e]; try destruct s; intros H;
    try discriminate H; reflexivity.
Qed.

Lemma div_by_zero_product (a w : Ieee.number) (s : bool) :
  Ieee.is_finite (Ieee.div a (Ieee.mul (S754_zero s) w)) = false.
Proof.
  destruct w as [s' | s' | | s' m' e'];
    destruct a as [s'' | s'' | | s'' m'' e'']; reflexivity.
Qed.

Lemma add_nan_l (b : Ieee.number) : Ieee.add S754_nan b = S754_nan.
Proof. reflexivity. Qed.

Lemma add_nan_r (a : Ieee.number) : Ieee.add a S754_nan = S754_nan.
Proof. destruct a as [s | s | | s m e]; reflexivity. Qed.

Lemma mul_nan_l (b : Ieee.number) : Ieee.mul S754_nan b = S754_nan.
Proof. reflexivity. Qed.

Lemma mul_nan_r (a : Ieee.number) : Ieee.mul a S754_nan = S754_nan.
Proof. destruct a as [s | s | | s m e]; reflexivity. Qed.

Lemma div_nan_l (b : Ieee.number) : Ieee.div S754_nan b = S754_nan.
Proof. reflexivity. Qed.

Lemma div_nan_r (a : Ieee.number) : Ieee.div a S754_nan = S754_nan.
Proof. destruct a as [s | s | | s m e]; reflexivity. Qed.

Lemma sub_nan_l (b : Ieee.number) : Ieee.sub S754_nan b = S754_nan.
Proof. reflexivity. Qed.

Lemma ieee_d1_eq (lib : Ieee.MathLib) (S0 K0 r0 T0 sigma0 : Ieee.number) :
  Ieee.d1 (Ieee.new_BlackScholes lib S0 K0 r0 T0 sigma0)
  = Ieee.div
      (Ieee.add (Ieee.Math_log lib (Ieee.div S0 K0))
         (Ieee.mul
            (Ieee.add r0
               (Ieee.mul Ieee.half (Ieee.Math_pow lib sigma0 Ieee.two)))
            T0))
      (Ieee.mul sigma0 (Ieee.Math_sqrt lib T0)).
Proof. reflexivity. Qed.

Lemma ieee_d2_eq (lib : Ieee.MathLib) (S0 K0 r0 T0 sigma0 : Ieee.number) :
  Ieee.d2 (Ieee.new_BlackScholes lib S0 K0 r0 T0 sigma0)
  = Ieee.sub (Ieee.d1 (Ieee.new_BlackScholes lib S0 K0 r0 T0 sigma0))
      (Ieee.mul sigma0 (Ieee.Math_sqrt lib T0)).
Proof. reflexivity. Qed.

(** X15: a zero volatility (either sign of zero) is not guarded: for every
    other input and every math library, [d1] and [d2] are not finite. *)
Theorem zero_volatility_not_finite (lib : Ieee.MathLib)
    (S0 K0 r0 T0 : Ieee.number) (s : bool) :
  let this := Ieee.new_BlackScholes lib S0 K0 r0 T0 (S754_zero s) in
  Ieee.is_finite (Ieee.d1 this) = false /\
  Ieee.is_finite (Ieee.d2 this) = false.
Proof.
  intros this.
  assert (H1 : Ieee.is_finite (Ieee.d1 this) = false).
  { unfold this. rewrite ieee_d1_eq. apply div_by_zero_product. }
  split; [exact H1 |].
  unfold this. rewrite ieee_d2_eq. apply sub_not_finite. exact H1.
Qed.

(** X16: whenever the quotient [S / K] is not a positive finite double
    (zero or negative spot, NaN, an infinity, overflow or underflow of the
    division), [d1] and [d2] are not finite, for every math library. *)
Theorem log_domain_violation_not_finite (lib : Ieee.MathLib)
    (S0 K0 r0 T0 sigma0 : Ieee.number) :
  in_log_domain (Ieee.div S0 K0) = false ->
  let this := Ieee.new_BlackScholes lib S0 K0 r0 T0 sigma0 in
  Ieee.is_finite (Ieee.d1 this) = false /\
  Ieee.is_finite (Ieee.d2 this) = false.
Proof.
  intros H this.
  assert (H1 : Ieee.is_finite (Ieee.d1 this) = false).
  { unfold this. rewrite ieee_d1_eq.
    apply div_not_finite, add_not_finite, log_outside_domain. exact H. }
  split; [exact H1 |].
  unfold this. rewrite ieee_d2_eq. apply sub_not_finite. exact H1.
Qed.

Lemma log_domain_violation_not_finite_witness :
  in_log_domain (Ieee.div (S754_zero false) Ieee.n_1) = false /\
  forall lib : Ieee.MathLib,
    Ieee.is_finite
      (Ieee.d1 (Ieee.new_BlackScholes lib (S754_zero false) Ieee.n_1
                  Ieee.n_0_05 Ieee.n_1 Ieee.n_0_2)) = false.
Proof.
  assert (H : in_log_domain (Ieee.div (S754_zero false) Ieee.n_1) = false)
    by reflexivity.
  split; [exact H |].
  intros lib.
  exact (proj1 (log_domain_violation_not_finite lib (S754_zero false)
                  Ieee.n_1 Ieee.n_0_05 Ieee.n_1 Ieee.n_0_2 H)).
Defined.

(** X17: NaN in, NaN out: if any of the five constructor arguments is NaN
    then both cached values are NaN, for every math library. *)
Theorem nan_input_propagates (lib : Ieee.MathLib)
    (S0 K0 r0 T0 sigma0 : Ieee.number) :
  S0 = S754_nan \/ K0 = S754_nan \/ r0 = S754_nan \/ T0 = S754_nan \/
  sigma0 = S754_nan ->
  let this := Ieee.new_BlackScholes lib S0 K0 r0 T0 sigma0 in
  Ieee.d1 this = S754_nan /\ Ieee.d2 this = S754_nan.
Proof.
  intros H this.
  assert (H1 : Ieee.d1 this = S754_nan).
  { unfold this. rewrite ieee_d1_eq.
    destruct H as [E | [E | [E | [E | E]]]]; subst.
    - rewrite div_nan_l. reflexivity.
    - rewrite div_nan_r. reflexivity.
    - rewrite add_nan_l, mul_nan_l, add_nan_r. reflexivity.
    - rewrite mul_nan_r, add_nan_r. reflexivity.
    - rewrite (mul_nan_l (Ieee.Math_sqrt lib T0)), div_nan_r. reflexivity. }
  split; [exact H1 |].
  unfold this. rewrite ieee_d2_eq. fold this. rewrite H1.
  apply sub_nan_l.
Qed.

Lemma nan_input_propagates_witness :
  (Ieee.n_1 = S754_nan \/ Ieee.n_1 = S754_nan \/ Ieee.n_0_05 = S754_nan \/
   S754_nan = S754_nan \/ Ieee.n_0_2 = S754_nan) /\
  forall lib : Ieee.MathLib,
    Ieee.d1 (Ieee.new_BlackScholes lib Ieee.n_1 Ieee.n_1 Ieee.n_0_05
               S754_nan Ieee.n_0_2) = S754_nan.
Proof.
  assert (H : Ieee.n_1 = S754_nan \/ Ieee.n_1 = S754_nan \/
              Ieee.n_0_05 = S754_nan \/ S754_nan = S754_nan \/
              Ieee.n_0_2 = S754_nan)
    by (right; right; right; left; reflexivity).
  split; [exact H |].
  intros lib.
  exact (proj1 (nan_input_propagates lib Ieee.n_1 Ieee.n_1 Ieee.n_0_05
                  S754_nan Ieee.n_0_2 H)).
Defined.
